(** * Network troubleshooting chatbot: the retrieval-augmentation prompt pipeline

    A shallow embedding of [app.py]: the keyword knowledge base and its
    lookup ([get_relevant_info]), the augmented prompt, the streaming loop
    that assembles the model's reply, and the two session histories
    ([st.session_state.messages] and [st.session_state.gemini_history]).

    Strings are [string], i.e. sequences of bytes: a Python [str] is carried
    as its UTF-8 encoding.  Substring containment on well-formed UTF-8 agrees
    with containment on code points.

    [str.lower] and [str.upper] are builtins of the interpreter, not code of
    the script.  They are a parameter of the development ([CaseMap]): any
    two functions that act on ASCII-only text as Python's do.  What they do
    with text outside ASCII (the Unicode case mappings, a character that
    lower-cases to two, the final sigma) is left open, so what is proved
    holds for Python's own functions on every query. *)

From Stdlib Require Import String Ascii List Bool Arith Lia.
Import ListNotations.
Open Scope string_scope.
Open Scope list_scope.

(** ** Strings as the script uses them *)

Definition LF : ascii := "010"%char.
Definition DQ : ascii := "034"%char.

(** [a + b] on [str]. *)
Definition str_add (a b : string) : string := (a ++ b)%string.

(** The lines of a triple-quoted literal, joined by line feeds. *)
Fixpoint join_lines (ls : list string) : string :=
  match ls with
  | [] => ""
  | [l] => l
  | l :: rest => (l ++ String LF (join_lines rest))%string
  end.

Definition is_upper (c : ascii) : bool :=
  let n := nat_of_ascii c in ((65 <=? n) && (n <=? 90))%nat.

Definition is_lower (c : ascii) : bool :=
  let n := nat_of_ascii c in ((97 <=? n) && (n <=? 122))%nat.

Definition lower_char (c : ascii) : ascii :=
  if is_upper c then ascii_of_nat (nat_of_ascii c + 32) else c.

Definition upper_char (c : ascii) : ascii :=
  if is_lower c then ascii_of_nat (nat_of_ascii c - 32) else c.

(** The lower-casing of ASCII text: A-Z to a-z, every other byte kept. *)
Fixpoint ascii_lower (s : string) : string :=
  match s with
  | EmptyString => EmptyString
  | String c s' => String (lower_char c) (ascii_lower s')
  end.

(** The upper-casing of ASCII text: a-z to A-Z, every other byte kept. *)
Fixpoint ascii_upper (s : string) : string :=
  match s with
  | EmptyString => EmptyString
  | String c s' => String (upper_char c) (ascii_upper s')
  end.

(** [s.isascii()]: every character is below U+0080. *)
Fixpoint is_ascii (s : string) : bool :=
  match s with
  | EmptyString => true
  | String c s' => (nat_of_ascii c <? 128)%nat && is_ascii s'
  end.

(** [s.lower()] and [s.upper()], the interpreter's builtins: two functions
    on strings of which only their action on ASCII-only text is fixed.  On
    other text Python applies the Unicode case mappings (the Kelvin sign
    lower-cases to "k", a capital sigma depends on its neighbours), and
    nothing is assumed about those. *)
Class CaseMap : Type := mkCaseMap
  { str_lower : string -> string
  ; str_upper : string -> string
  ; str_lower_ascii : forall s, is_ascii s = true -> str_lower s = ascii_lower s
  ; str_upper_ascii : forall s, is_ascii s = true -> str_upper s = ascii_upper s
  }.

(** The case map that leaves every byte outside ASCII as it is: what Python
    computes on ASCII-only text, used to evaluate the script on such text. *)
Definition ascii_case : CaseMap :=
  {| str_lower := ascii_lower
   ; str_upper := ascii_upper
   ; str_lower_ascii := fun _ _ => eq_refl
   ; str_upper_ascii := fun _ _ => eq_refl |}.

(** Upper-casing of text made of ASCII characters and the long s (U+017F,
    the bytes 197 191 in UTF-8): Python upper-cases the long s to "S". *)
Fixpoint long_s_upper (s : string) : string :=
  match s with
  | EmptyString => EmptyString
  | String c1 s1 =>
      match s1 with
      | String c2 rest =>
          if Ascii.eqb c1 "197" && Ascii.eqb c2 "191"
          then String "S" (long_s_upper rest)
          else String (upper_char c1) (long_s_upper s1)
      | EmptyString => String (upper_char c1) EmptyString
      end
  end.

(** The case map that is Python's on text made of ASCII characters and the
    long s: lower-casing keeps the long s, which is a small letter;
    upper-casing turns it into "S". *)
Definition long_s_case : CaseMap.
Proof.
  refine {| str_lower := ascii_lower
          ; str_upper := long_s_upper
          ; str_lower_ascii := fun _ _ => eq_refl
          ; str_upper_ascii := _ |}.
  intros s. induction s as [|c1 s1 IH]; [reflexivity|].
  intros H. cbn [is_ascii] in H. apply andb_true_iff in H.
  destruct H as [Hc Hs]. specialize (IH Hs).
  destruct s1 as [|c2 rest]; [reflexivity|].
  assert (Hne : Ascii.eqb c1 "197" = false).
  { destruct c1 as [[] [] [] [] [] [] [] []];
      (reflexivity || (vm_compute in Hc; discriminate)). }
  change (long_s_upper (String c1 (String c2 rest)))
    with (if Ascii.eqb c1 "197" && Ascii.eqb c2 "191"
          then String "S" (long_s_upper rest)
          else String (upper_char c1) (long_s_upper (String c2 rest))).
  rewrite Hne. cbn [andb ascii_upper]. now rewrite IH.
Defined.

(** [s.startswith(p)] *)
Fixpoint startswith (p s : string) : bool :=
  match p, s with
  | EmptyString, _ => true
  | String _ _, EmptyString => false
  | String a p', String b s' => Ascii.eqb a b && startswith p' s'
  end.

(** [needle in hay]: raw substring containment. *)
Fixpoint str_in (needle hay : string) : bool :=
  startswith needle hay ||
  match hay with
  | EmptyString => false
  | String _ hay' => str_in needle hay'
  end.

(** ** The knowledge base *)

Definition doc_no_internet : string :=
  join_lines
    [ ""
    ; "    ### Troubleshooting 'No Internet Connection'"
    ; ""
    ; "    1.  **Check Physical Connections:** Ensure all cables (Ethernet, power) are securely plugged into the modem, router, and your computer. Look for any damaged or loose cables."
    ; "    2.  **Restart Devices:**"
    ; "        * Unplug the power from your modem and router."
    ; "        * Wait for 30 seconds."
    ; "        * Plug the modem back in and wait for all lights to stabilize."
    ; "        * Plug the router back in and wait for it to boot up."
    ; "        * Restart your computer or device."
    ; "    3.  **Check Indicator Lights:** On your modem and router, a solid green or blue light usually indicates a healthy connection. A red or blinking light often signals a problem. Check the manual for specific meanings."
    ; "    4.  **Test with Another Device:** Try connecting to the internet with a different device (e.g., phone or tablet) to see if the issue is with your computer or the network itself."
    ; "    5.  **Run Network Troubleshooter:** On Windows, use the built-in troubleshooter. On macOS, use Wireless Diagnostics. These can often identify common issues."
    ; "    6.  **Contact Your ISP:** If all else fails, the problem may be on your Internet Service Provider's end. Contact their support for assistance."
    ; "    "
    ].

Definition doc_slow_network : string :=
  join_lines
    [ ""
    ; "    ### Troubleshooting 'Slow Network Speed'"
    ; ""
    ; "    1.  **Run a Speed Test:** Use a reliable service like speedtest.net to measure your current download and upload speeds. This confirms if the issue is with your overall connection speed."
    ; "    2.  **Reduce Connected Devices:** A large number of devices using the network simultaneously can slow it down. Disconnect unused devices."
    ; "    3.  **Check for Background Downloads:** Ensure no large files are downloading or updating in the background on any device."
    ; "    4.  **Restart Your Router:** Rebooting the router can clear its cache and improve performance."
    ; "    5.  **Check Wi-Fi Signal Strength:** Move closer to your router or use a Wi-Fi analyzer app to check for signal interference."
    ; "    6.  **Update Router Firmware:** Check your router's manufacturer website for any available firmware updates, which can improve performance and security."
    ; "    "
    ].

Definition doc_wifi_not_working : string :=
  join_lines
    [ ""
    ; "    ### Troubleshooting 'Wi-Fi Connection Issues'"
    ; ""
    ; "    1.  **Check Wi-Fi Switch:** Many laptops and some desktops have a physical switch or key combination to turn Wi-Fi on or off."
    ; ("    2.  **Forget and Reconnect:** On your device, " ++ String DQ "forget" ++ String DQ " the Wi-Fi network and then try to connect to it again, entering the password as if it were a new connection.")%string
    ; "    3.  **Verify Password:** Double-check that you are entering the correct Wi-Fi password."
    ; "    4.  **Move Closer to the Router:** Physical distance and obstacles can degrade Wi-Fi signal quality."
    ; "    5.  **Check for Interference:** Other electronic devices, like microwaves and cordless phones, can interfere with your Wi-Fi signal."
    ; "    "
    ].

Definition doc_ip_address : string :=
  join_lines
    [ ""
    ; "    ### Finding and Renewing Your IP Address"
    ; ""
    ; "    **To find your IP address:**"
    ; "    * **Windows:** Open Command Prompt and type `ipconfig`."
    ; "    * **macOS:** Open Terminal and type `ifconfig` or check System Settings > Network."
    ; "    * **Linux:** Open Terminal and type `ifconfig` or `ip addr show`."
    ; ""
    ; "    **To renew your IP address:**"
    ; "    * **Windows:** Open Command Prompt and type `ipconfig /release` followed by `ipconfig /renew`."
    ; "    * **macOS / Linux:** Open Terminal and type `sudo dhclient -r` followed by `sudo dhclient`."
    ; "    "
    ].

(** [NETWORK_TROUBLESHOOTING_KB]: a dict literal; iteration follows the
    order of the literal, so it is kept as an association list. *)
Definition NETWORK_TROUBLESHOOTING_KB : list (string * string) :=
  [ ("no internet", doc_no_internet)
  ; ("slow network", doc_slow_network)
  ; ("wi-fi not working", doc_wifi_not_working)
  ; ("ip address", doc_ip_address)
  ].

Definition FALLBACK : string :=
  "No specific guide found. I will try to answer based on my general knowledge.".

(** The [for keyword, content in ....items()] loop of [get_relevant_info],
    with the [return] after the loop at the end of the items. *)
Fixpoint scan_items (items : list (string * string)) (query : string) : string :=
  match items with
  | [] => FALLBACK
  | (keyword, content) :: rest =>
      if str_in keyword query then content else scan_items rest query
  end.

Definition get_relevant_info {L : CaseMap} (query : string) : string :=
  let query := str_lower query in
  scan_items NETWORK_TROUBLESHOOTING_KB query.

(** ** The augmented prompt *)

Definition INSTRUCTION : string :=
  ("You are a helpful and expert network troubleshooting assistant. " ++
   "Use the following information to guide the user and provide a detailed, step-by-step solution. " ++
   "Do not invent information beyond the context or your general knowledge." ++
   String LF (String LF ""))%string.

(** The f-string of [augmented_prompt]. *)
Definition augmented_prompt (retrieved_info prompt : string) : string :=
  (INSTRUCTION ++
   ("Context:" ++ String LF "" ++ retrieved_info ++ String LF (String LF "")) ++
   ("User's request:" ++ String LF "" ++ prompt))%string.

(** ** Session state and the remote stream *)

(** An entry of [st.session_state.messages]:
    [{"role": ..., "content": ...}]. *)
Record ChatMessage : Type := mkMessage
  { msg_role : string
  ; msg_content : string
  }.

(** An entry of [st.session_state.gemini_history]:
    [{"role": ..., "parts": [{"text": ...}]}]. *)
Record Part : Type := mkPart { part_text : string }.

Record ModelTurn : Type := mkTurn
  { turn_role : string
  ; turn_parts : list Part
  }.

Record session_state : Type := mkSession
  { messages : list ChatMessage
  ; gemini_history : list ModelTurn
  }.

(** The state after [if "messages" not in st.session_state]. *)
Definition initial_state : session_state :=
  {| messages := []; gemini_history := [] |}.

(** What iterating [response] does: it yields a chunk whose [.text] is
    read, it is exhausted, or it raises an [Exception] whose [str(e)] is
    kept.  A call of [chat.send_message] that raises before any chunk is
    the stream [Raise e]. *)
Inductive response : Type :=
| Exhausted : response
| Chunk : string -> response -> response
| Raise : string -> response.

(** The result of a [try] body. *)
Inductive outcome (A : Type) : Type :=
| Returned : A -> outcome A
| Raised : string -> outcome A.

Arguments Returned {A} _.
Arguments Raised {A} _.

(** What the page shows, in order. *)
Inductive ui_event : Type :=
| ChatMarkdown : string -> string -> ui_event   (* st.chat_message(role) / st.markdown(body) *)
| Placeholder : string -> ui_event              (* message_placeholder.markdown(body) *)
| StError : string -> ui_event
| StWarning : string -> ui_event.

(** The cursor appended to every partial render: U+258C as UTF-8. *)
Definition CURSOR : string := "▌".

(** The [for chunk in response] loop: the bodies handed to
    [message_placeholder.markdown] inside the loop, and [full_response] at
    exhaustion, or the exception that ended the loop. *)
Fixpoint stream_loop (resp : response) (full_response : string)
  : list string * outcome string :=
  match resp with
  | Exhausted => ([], Returned full_response)
  | Chunk text rest =>
      let full_response := str_add full_response text in
      let '(renders, res) := stream_loop rest full_response in
      (str_add full_response CURSOR :: renders, res)
  | Raise e => ([], Raised e)
  end.

(** The body of [with st.chat_message("assistant")]: the loop, then the
    final render without the cursor. *)
Definition assistant_block (resp : response) : list ui_event * outcome string :=
  let '(renders, res) := stream_loop resp "" in
  match res with
  | Returned full_response =>
      (map Placeholder renders ++ [Placeholder full_response], Returned full_response)
  | Raised e => (map Placeholder renders, Raised e)
  end.

Definition user_message (prompt : string) : ChatMessage :=
  {| msg_role := "user"; msg_content := prompt |}.

Definition user_turn (prompt : string) : ModelTurn :=
  {| turn_role := "user"; turn_parts := [ {| part_text := prompt |} ] |}.

Definition assistant_message (full_response : string) : ChatMessage :=
  {| msg_role := "assistant"; msg_content := full_response |}.

Definition model_turn (full_response : string) : ModelTurn :=
  {| turn_role := "model"; turn_parts := [ {| part_text := full_response |} ] |}.

(** The remote chat: given the history [start_chat] was handed and the
    prompt sent, the stream it answers with.  It is outside the repository;
    the session lists are only ever changed by the script's own appends. *)
Definition remote : Type := list ModelTurn -> string -> response.

(** Python truthiness of the value of [st.chat_input]: [None] and the empty
    string skip the [if prompt := ...] block. *)
Definition submitted (chat_input : option string) : option string :=
  match chat_input with
  | Some (String c s) => Some (String c s)
  | _ => None
  end.

(** The [if prompt := st.chat_input(...)] block, run on a submitted
    prompt. *)
Definition handle_prompt {L : CaseMap} (send_message : remote) (prompt : string)
    (st : session_state) : session_state * list ui_event :=
  let chat_history := gemini_history st in
  let st1 :=
    {| messages := messages st ++ [user_message prompt]
     ; gemini_history := gemini_history st ++ [user_turn prompt] |} in
  let retrieved_info := get_relevant_info prompt in
  let augmented := augmented_prompt retrieved_info prompt in
  let '(shown, res) := assistant_block (send_message chat_history augmented) in
  match res with
  | Returned full_response =>
      ({| messages := messages st1 ++ [assistant_message full_response]
        ; gemini_history := gemini_history st1 ++ [model_turn full_response] |},
       ChatMarkdown "user" prompt :: shown)
  | Raised e =>
      (st1,
       ChatMarkdown "user" prompt :: shown ++
       [ StError ("An error occurred: " ++ e)%string
       ; StWarning "Please try again or rephrase your question." ])
  end.

(** One run of the script: the replay of the stored messages, then the
    prompt block when a prompt was submitted. *)
Definition script_run {L : CaseMap} (send_message : remote) (chat_input : option string)
    (st : session_state) : session_state * list ui_event :=
  let replay := map (fun m => ChatMarkdown (msg_role m) (msg_content m)) (messages st) in
  match submitted chat_input with
  | None => (st, replay)
  | Some prompt =>
      let '(st', shown) := handle_prompt send_message prompt st in
      (st', replay ++ shown)
  end.

(** The session states between the runs of a sequence of runs, the first
    included; every run has the remote's behaviour and the input of that
    run. *)
Fixpoint states_between {L : CaseMap} (runs : list (remote * option string))
    (st : session_state) : list session_state :=
  st ::
  match runs with
  | [] => []
  | (send_message, chat_input) :: rest =>
      states_between rest (fst (script_run send_message chat_input st))
  end.

(** The stream that yields the given fragments and is then exhausted. *)
Fixpoint stream_of (fragments : list string) : response :=
  match fragments with
  | [] => Exhausted
  | f :: rest => Chunk f (stream_of rest)
  end.

(** The stream that yields the given fragments and then raises. *)
Fixpoint failing_after (fragments : list string) (e : string) : response :=
  match fragments with
  | [] => Raise e
  | f :: rest => Chunk f (failing_after rest e)
  end.

(** The exception a stream ends in, if it ends in one. *)
Fixpoint stream_error (resp : response) : option string :=
  match resp with
  | Exhausted => None
  | Chunk _ rest => stream_error rest
  | Raise e => Some e
  end.

(** The in-order concatenation of the fragments. *)
Definition concat_all (fragments : list string) : string :=
  fold_right String.append "" fragments.


(** The composer as the specification words it: an instruction, a labelled
    context block holding the retrieved document, a labelled request block
    holding the user's text. *)
Definition context_block (retrieved : string) : string :=
  ("Context:" ++ String LF retrieved ++ String LF (String LF ""))%string.

Definition request_block (userText : string) : string :=
  ("User's request:" ++ String LF userText)%string.

Definition compose (instruction retrieved userText : string) : string :=
  (instruction ++ context_block retrieved ++ request_block userText)%string.

(** A trigger occurs in the normalised form of a query. *)
Definition triggered {L : CaseMap} (keyword query : string) : bool :=
  str_in keyword (str_lower query).

(** The running concatenations of the fragments: the first, the first two,
    and so on. *)
Definition running (fragments : list string) : list string :=
  map (fun k => concat_all (firstn (S k) fragments))
      (seq 0 (length fragments)).

(** Role tags of a display entry and of a protocol entry that go together. *)
Definition roles_correspond (m : ChatMessage) (t : ModelTurn) : Prop :=
  (msg_role m = "user" <-> turn_role t = "user") /\
  (msg_role m = "assistant" <-> turn_role t = "model").

(** The two histories have one length and matching roles at every index. *)
Definition synchronized (st : session_state) : Prop :=
  length (messages st) = length (gemini_history st) /\
  forall i m t,
    nth_error (messages st) i = Some m ->
    nth_error (gemini_history st) i = Some t ->
    roles_correspond m t.

(** No entry before index [i] occurs in the (normalised) query. *)
Definition miss_before (items : list (string * string)) (query : string)
    (i : nat) : Prop :=
  forall j k d,
    j < i -> nth_error items j = Some (k, d) -> str_in k query = false.

(** The query of the end-to-end scenario, and its hyphenated variant. *)
Definition scenario_query : string := "My wifi is not working".
Definition hyphenated_query : string := "My Wi-Fi not working".

(** ** Further notions for the session and the prompt *)

(** The protocol entry that goes with a display entry: the role
    "assistant" becomes "model", the content becomes the one part. *)
Definition to_turn (m : ChatMessage) : ModelTurn :=
  {| turn_role := if String.eqb (msg_role m) "assistant" then "model" else msg_role m
   ; turn_parts := [ {| part_text := msg_content m |} ] |}.

(** What one turn leaves in the display history: the user's entry alone
    when the stream raised, the user's entry and the assistant's entry when
    it completed. *)
Inductive turn_block : Type :=
| Unanswered : string -> turn_block
| Answered : string -> string -> turn_block.

Definition block_prompt (b : turn_block) : string :=
  match b with
  | Unanswered prompt => prompt
  | Answered prompt _ => prompt
  end.

Definition block_messages (b : turn_block) : list ChatMessage :=
  match b with
  | Unanswered prompt => [user_message prompt]
  | Answered prompt full_response =>
      [user_message prompt; assistant_message full_response]
  end.

(** The replay of the stored messages at the start of a run. *)
Definition replay (st : session_state) : list ui_event :=
  map (fun m => ChatMarkdown (msg_role m) (msg_content m)) (messages st).

(** The text between the retrieved document and the user's text in the
    prompt. *)
Definition REQUEST_LABEL : string :=
  String LF (String LF ("User's request:" ++ String LF ""))%string.

(** Two strings differ at a position that both have. *)
Fixpoint diverge (a b : string) : bool :=
  match a, b with
  | String x a', String y b' => if Ascii.eqb x y then diverge a' b' else true
  | _, _ => false
  end.

(** The strings the lookup can answer with. *)
Definition ANSWERS : list string :=
  FALLBACK :: map snd NETWORK_TROUBLESHOOTING_KB.

(** ** The lookup as the interpreter runs it *)

(** The values [get_relevant_info] can be called with. *)
Inductive pyval : Type :=
| PyStr : string -> pyval
| PyNone : pyval.

(** What a call can read and change: the dict of the module, the session,
    the page. *)
Record world : Type := mkWorld
  { w_kb : list (string * string)
  ; w_session : session_state
  ; w_page : list ui_event
  }.

(** A computation: from a world, a value and the world it leaves, or an
    exception. *)
Definition py (A : Type) : Type := world -> outcome (A * world).

Definition py_ret {A : Type} (a : A) : py A :=
  fun w => Returned (a, w).

Definition py_raise {A : Type} (e : string) : py A :=
  fun _ => Raised e.

Definition py_bind {A B : Type} (c : py A) (k : A -> py B) : py B :=
  fun w =>
    match c w with
    | Returned (a, w') => k a w'
    | Raised e => Raised e
    end.

Notation "x <- c ;; k" := (py_bind c (fun x => k))
  (at level 61, c at next level, right associativity).

(** [v.lower()] *)
Definition py_lower {L : CaseMap} (v : pyval) : py pyval :=
  match v with
  | PyStr s => py_ret (PyStr (str_lower s))
  | PyNone => py_raise "AttributeError: 'NoneType' object has no attribute 'lower'"
  end.

(** [keyword in v] *)
Definition py_contains (keyword : string) (v : pyval) : py bool :=
  match v with
  | PyStr s => py_ret (str_in keyword s)
  | PyNone => py_raise "TypeError: argument of type 'NoneType' is not iterable"
  end.

(** [NETWORK_TROUBLESHOOTING_KB.items()], read from the module. *)
Definition py_kb_items : py (list (string * string)) :=
  fun w => Returned (w_kb w, w).

(** The [for] loop of [get_relevant_info] and the [return] after it. *)
Fixpoint py_scan (items : list (string * string)) (query : pyval) : py pyval :=
  match items with
  | [] => py_ret (PyStr FALLBACK)
  | (keyword, content) :: rest =>
      hit <- py_contains keyword query ;;
      if hit then py_ret (PyStr content) else py_scan rest query
  end.

(** [get_relevant_info], statement by statement. *)
Definition get_relevant_info_py {L : CaseMap} (query : pyval) : py pyval :=
  query <- py_lower query ;;
  items <- py_kb_items ;;
  py_scan items query.

(** * Properties *)

(** ** Strings *)

Lemma append_nil_r (s : string) : (s ++ "")%string = s.
Proof. induction s as [|c s IH]; simpl; [reflexivity | now rewrite IH]. Qed.

Lemma append_assoc (a b c : string) :
  ((a ++ b) ++ c)%string = (a ++ (b ++ c))%string.
Proof. induction a as [|x a IH]; simpl; [reflexivity | now rewrite IH]. Qed.


Lemma startswith_app (p s : string) : startswith p (p ++ s) = true.
Proof.
  induction p as [|c p IH]; simpl; [reflexivity|].
  now rewrite Ascii.eqb_refl, IH.
Qed.

Lemma startswith_inv (p : string) :
  forall s, startswith p s = true -> exists t, s = (p ++ t)%string.
Proof.
  induction p as [|c p IH]; intros s H.
  - exists s. reflexivity.
  - destruct s as [|d s]; simpl in H; [discriminate|].
    apply andb_true_iff in H. destruct H as [Hc Hp].
    apply Ascii.eqb_eq in Hc. subst d.
    destruct (IH s Hp) as [t Ht]. exists t. simpl. now rewrite Ht.
Qed.

(** [str_in] is containment: the needle sits between some prefix and some
    suffix of the haystack. *)
Lemma str_in_intro (k a b : string) : str_in k (a ++ k ++ b) = true.
Proof.
  induction a as [|c a IH]; simpl.
  - destruct k as [|x k]; simpl; [now destruct b|].
    now rewrite Ascii.eqb_refl, startswith_app.
  - rewrite IH. apply orb_true_r.
Qed.

Lemma str_in_inv (k : string) :
  forall s, str_in k s = true -> exists a b, s = (a ++ k ++ b)%string.
Proof.
  induction s as [|c s IH]; intros H.
  - simpl in H. rewrite orb_false_r in H.
    destruct (startswith_inv _ _ H) as [t Ht]. exists "", t. exact Ht.
  - simpl in H. apply orb_true_iff in H. destruct H as [H|H].
    + destruct (startswith_inv _ _ H) as [t Ht]. exists "", t. exact Ht.
    + destruct (IH H) as [a [b Hab]]. exists (String c a), b.
      simpl. now rewrite Hab.
Qed.

Lemma str_in_iff (k s : string) :
  str_in k s = true <-> exists a b, s = (a ++ k ++ b)%string.
Proof.
  split; [apply str_in_inv|].
  intros [a [b ->]]. apply str_in_intro.
Qed.

(** Containment is transitive: what holds a string holds its substrings. *)
Lemma str_in_trans (a b c : string) :
  str_in a b = true -> str_in b c = true -> str_in a c = true.
Proof.
  intros Hab Hbc.
  apply str_in_iff in Hab. destruct Hab as [p [q ->]].
  apply str_in_iff in Hbc. destruct Hbc as [u [v ->]].
  apply str_in_iff. exists (u ++ p)%string, (q ++ v)%string.
  now rewrite !append_assoc.
Qed.

Lemma lower_char_idem (c : ascii) : lower_char (lower_char c) = lower_char c.
Proof.
  destruct c as [[] [] [] [] [] [] [] []]; reflexivity.
Qed.

Lemma lower_upper_char (c : ascii) : lower_char (upper_char c) = lower_char c.
Proof.
  destruct c as [[] [] [] [] [] [] [] []]; reflexivity.
Qed.

Lemma ascii_lower_idem (s : string) : ascii_lower (ascii_lower s) = ascii_lower s.
Proof.
  induction s as [|c s IH]; simpl; [reflexivity|].
  now rewrite lower_char_idem, IH.
Qed.

Lemma ascii_lower_upper (s : string) : ascii_lower (ascii_upper s) = ascii_lower s.
Proof.
  induction s as [|c s IH]; simpl; [reflexivity|].
  now rewrite lower_upper_char, IH.
Qed.

Lemma upper_char_ascii (c : ascii) :
  (nat_of_ascii c <? 128)%nat = true ->
  (nat_of_ascii (upper_char c) <? 128)%nat = true.
Proof.
  destruct c as [[] [] [] [] [] [] [] []]; intros H; vm_compute in *; congruence.
Qed.

Lemma is_ascii_upper (s : string) :
  is_ascii s = true -> is_ascii (ascii_upper s) = true.
Proof.
  induction s as [|c s IH]; simpl; [reflexivity|].
  intros H. apply andb_true_iff in H. destruct H as [Hc Hs].
  now rewrite (upper_char_ascii c Hc), (IH Hs).
Qed.

(** ** The scan of the knowledge base, for any list of entries *)

Lemma scan_items_miss (items : list (string * string)) (query : string) :
  (forall k d, In (k, d) items -> str_in k query = false) ->
  scan_items items query = FALLBACK.
Proof.
  induction items as [|[k d] rest IH]; intros H; simpl; [reflexivity|].
  rewrite (H k d (or_introl eq_refl)).
  apply IH. intros k' d' Hin. apply (H k' d'). now right.
Qed.

(** The scan answers with the entry at the first index that hits. *)
Lemma scan_items_first (items : list (string * string)) (query : string) :
  forall i k d,
    nth_error items i = Some (k, d) ->
    str_in k query = true ->
    miss_before items query i ->
    scan_items items query = d.
Proof.
  induction items as [|[k0 d0] rest IH]; intros i k d Hnth Hin Hbefore.
  - destruct i; discriminate.
  - destruct i as [|i]; simpl in *.
    + injection Hnth as -> ->. now rewrite Hin.
    + rewrite (Hbefore 0 k0 d0 (Nat.lt_0_succ i) eq_refl).
      apply (IH i k d Hnth Hin).
      intros j k' d' Hj Hn. apply (Hbefore (S j) k' d'); [lia | exact Hn].
Qed.

(** Whenever some entry hits, there is a first one, at or before it. *)
Lemma first_hit_exists (items : list (string * string)) (query : string) :
  forall i k d,
    nth_error items i = Some (k, d) ->
    str_in k query = true ->
    exists i0 k0 d0,
      i0 <= i /\ nth_error items i0 = Some (k0, d0) /\
      str_in k0 query = true /\ miss_before items query i0.
Proof.
  induction items as [|[k0 d0] rest IH]; intros i k d Hnth Hin.
  - destruct i; discriminate.
  - destruct (str_in k0 query) eqn:Hk0.
    + exists 0, k0, d0. repeat split; [lia | exact Hk0 |].
      intros j k' d' Hj. lia.
    + destruct i as [|i]; simpl in Hnth.
      * injection Hnth as -> ->. congruence.
      * destruct (IH i k d Hnth Hin) as [i0 [k1 [d1 [Hle [Hn [Hs Hm]]]]]].
        exists (S i0), k1, d1. repeat split; [lia | exact Hn | exact Hs |].
        intros j k' d' Hj Hnj. destruct j as [|j]; simpl in Hnj.
        -- injection Hnj as <- <-. exact Hk0.
        -- apply (Hm j k' d'); [lia | exact Hnj].
Qed.

(** The scan answers with the fallback or with the content of an entry. *)
Lemma scan_items_range (items : list (string * string)) (query : string) :
  scan_items items query = FALLBACK \/
  In (scan_items items query) (map snd items).
Proof.
  induction items as [|[k d] rest IH]; simpl; [now left|].
  destruct (str_in k query); [right; now left|].
  destruct IH as [IH|IH]; [now left | right; now right].
Qed.

(** ** The knowledge base of the script *)

Notation "'KB'" := NETWORK_TROUBLESHOOTING_KB.

(** The entries of the dict, by index. *)
Lemma kb_entries (i : nat) (e : string * string) :
  nth_error KB i = Some e ->
  (i = 0 /\ e = ("no internet", doc_no_internet)) \/
  (i = 1 /\ e = ("slow network", doc_slow_network)) \/
  (i = 2 /\ e = ("wi-fi not working", doc_wifi_not_working)) \/
  (i = 3 /\ e = ("ip address", doc_ip_address)).
Proof.
  destruct i as [|[|[|[|i]]]]; cbn [nth_error NETWORK_TROUBLESHOOTING_KB];
    intros H; try (injection H as <-); auto 6.
  destruct i; discriminate.
Qed.

Ltac differ := apply String.eqb_neq; vm_compute; reflexivity.

(** The four documents and the fallback are five different strings. *)
Lemma kb_docs_distinct (i j : nat) (e1 e2 : string * string) :
  nth_error KB i = Some e1 -> nth_error KB j = Some e2 -> i <> j ->
  snd e1 <> snd e2.
Proof.
  intros H1 H2 Hij.
  destruct (kb_entries _ _ H1) as [[-> ->]|[[-> ->]|[[-> ->]|[-> ->]]]];
  destruct (kb_entries _ _ H2) as [[-> ->]|[[-> ->]|[[-> ->]|[-> ->]]]];
    try (exfalso; apply Hij; reflexivity); cbn [snd]; differ.
Qed.

Lemma kb_docs_not_fallback (k d : string) : In (k, d) KB -> FALLBACK <> d.
Proof.
  intros Hin. cbn [In NETWORK_TROUBLESHOOTING_KB] in Hin.
  repeat (destruct Hin as [Hin|Hin]; [injection Hin as <- <-; differ|]).
  contradiction.
Qed.

(** Every key of the dict is ASCII-only and has no capital letter. *)
Lemma kb_keys_ascii :
  Forall (fun e => is_ascii (fst e) = true /\ ascii_lower (fst e) = fst e) KB.
Proof. repeat constructor. Qed.

(** Every key of the dict is its own lower-cased form. *)
Lemma kb_keys_lower {L : CaseMap} :
  Forall (fun e => str_lower (fst e) = fst e) KB.
Proof.
  pose proof kb_keys_ascii as H.
  rewrite Forall_forall in *. intros e He. destruct (H e He) as [Ha Hl].
  now rewrite (str_lower_ascii _ Ha).
Qed.

(** On an ASCII-only query every case map gives the lookup of the ASCII
    case map, so the lookup of such a query is found by evaluation. *)
Lemma lookup_ascii {L : CaseMap} (q : string) :
  is_ascii q = true ->
  get_relevant_info q = get_relevant_info (L := ascii_case) q.
Proof.
  intros H. unfold get_relevant_info. cbv zeta.
  now rewrite (str_lower_ascii q H).
Qed.

Lemma triggered_ascii {L : CaseMap} (k q : string) :
  is_ascii q = true ->
  triggered k q = triggered (L := ascii_case) k q.
Proof.
  intros H. unfold triggered. now rewrite (str_lower_ascii q H).
Qed.

(** The lookup is the scan at the first index that hits. *)
Lemma lookup_first {L : CaseMap} (q : string) (i : nat) (k d : string) :
  nth_error KB i = Some (k, d) ->
  triggered k q = true ->
  miss_before KB (str_lower q) i ->
  get_relevant_info q = d.
Proof. intros H1 H2 H3. exact (scan_items_first _ _ _ _ _ H1 H2 H3). Qed.

Lemma lookup_miss {L : CaseMap} (q : string) :
  (forall k d, In (k, d) KB -> triggered k q = false) ->
  get_relevant_info q = FALLBACK.
Proof. intros H. exact (scan_items_miss _ _ H). Qed.

(** C4: when the lower-cased query holds two (or more) different triggers,
    the lookup answers with the document of the first entry, in the order
    of the dict literal, whose trigger occurs in it -- one document, and not
    that of the later trigger; a query that holds both "no internet" and
    "slow network" gets the "no internet" document. *)
Theorem first_match_policy {L : CaseMap} (q : string) :
  (forall i j k1 d1 k2 d2,
      nth_error KB i = Some (k1, d1) ->
      nth_error KB j = Some (k2, d2) ->
      i < j ->
      triggered k1 q = true ->
      triggered k2 q = true ->
      exists i0 k0 d0,
        i0 <= i /\ nth_error KB i0 = Some (k0, d0) /\
        triggered k0 q = true /\
        miss_before KB (str_lower q) i0 /\
        get_relevant_info q = d0 /\
        get_relevant_info q <> d2)
  /\
  (triggered "no internet" q = true ->
   triggered "slow network" q = true ->
   get_relevant_info q = doc_no_internet /\
   get_relevant_info q <> doc_slow_network).
Proof.
  split.
  - intros i j k1 d1 k2 d2 Hi Hj Hlt H1 H2.
    destruct (first_hit_exists _ _ _ _ _ Hi H1) as [i0 [k0 [d0 [Hle [Hn [Hs Hm]]]]]].
    exists i0, k0, d0.
    assert (Hres : get_relevant_info q = d0) by exact (lookup_first _ _ _ _ Hn Hs Hm).
    repeat split; try assumption.
    rewrite Hres.
    apply (kb_docs_distinct i0 j (k0, d0) (k2, d2) Hn Hj). lia.
  - intros H1 _.
    assert (Hres : get_relevant_info q = doc_no_internet).
    { apply (lookup_first q 0 "no internet" doc_no_internet eq_refl H1).
      intros j k d Hj. lia. }
    split; [exact Hres|]. rewrite Hres. differ.
Qed.

Lemma first_match_policy_witness :
  triggered (L := ascii_case) "no internet" "Slow network, then NO INTERNET at all" = true /\
  triggered (L := ascii_case) "slow network" "Slow network, then NO INTERNET at all" = true /\
  get_relevant_info (L := ascii_case) "Slow network, then NO INTERNET at all" = doc_no_internet.
Proof.
  split; [vm_compute; reflexivity|].
  split; [vm_compute; reflexivity|].
  apply (proj2 (first_match_policy (L := ascii_case) "Slow network, then NO INTERNET at all"));
    vm_compute; reflexivity.
Defined.

Lemma no_trigger_in {L : CaseMap} (q : string) :
  forallb (fun e => negb (triggered (fst e) q)) KB = true ->
  forall k d, In (k, d) KB -> triggered k q = false.
Proof.
  intros H k d Hin. rewrite forallb_forall in H.
  specialize (H (k, d) Hin). now apply negb_true_iff in H.
Qed.

(** C6: a query whose lower-cased form holds no trigger gets the fixed
    fallback text, which is none of the documents; "why is my toaster
    broken" is such a query. *)
Theorem fallback_when_no_trigger {L : CaseMap} (q : string) :
  ((forall k d, In (k, d) KB -> triggered k q = false) ->
   get_relevant_info q = FALLBACK /\
   (forall k d, In (k, d) KB -> get_relevant_info q <> d))
  /\
  (get_relevant_info "why is my toaster broken" = FALLBACK /\
   (forall k d, In (k, d) KB -> triggered k "why is my toaster broken" = false)).
Proof.
  split.
  - intros Hmiss.
    assert (Hres : get_relevant_info q = FALLBACK) by exact (lookup_miss q Hmiss).
    split; [exact Hres|].
    intros k d Hin. rewrite Hres. exact (kb_docs_not_fallback k d Hin).
  - assert (Hmiss : forall k d, In (k, d) KB ->
                      triggered k "why is my toaster broken" = false).
    { intros k d Hin. rewrite triggered_ascii by reflexivity.
      revert k d Hin. apply no_trigger_in. vm_compute. reflexivity. }
    split; [exact (lookup_miss _ Hmiss) | exact Hmiss].
Qed.

Lemma fallback_when_no_trigger_witness :
  get_relevant_info (L := ascii_case) "My printer is out of ink" = FALLBACK /\
  (forall k d, In (k, d) KB ->
               get_relevant_info (L := ascii_case) "My printer is out of ink" <> d).
Proof.
  apply (proj1 (fallback_when_no_trigger (L := ascii_case) "My printer is out of ink")).
  apply no_trigger_in. vm_compute. reflexivity.
Defined.

(** The lookup as the interpreter runs it is the lookup as a function: no
    exception, the same world. *)
Lemma py_scan_returns (items : list (string * string)) (query : string)
    (w : world) :
  py_scan items (PyStr query) w = Returned (PyStr (scan_items items query), w).
Proof.
  induction items as [|[keyword content] rest IH]; [reflexivity|].
  cbn [py_scan scan_items]. unfold py_bind, py_contains, py_ret.
  destruct (str_in keyword query); [reflexivity | exact IH].
Qed.

Lemma get_relevant_info_py_returns {L : CaseMap} (q : string) (w : world) :
  w_kb w = KB ->
  get_relevant_info_py (PyStr q) w = Returned (PyStr (get_relevant_info q), w).
Proof.
  intros Hkb. unfold get_relevant_info_py, py_bind, py_lower, py_ret, py_kb_items.
  rewrite Hkb. apply py_scan_returns.
Qed.

(** Called with [None] the lookup raises at [query.lower()]: the model has
    the error path a call with a string never takes. *)
Lemma get_relevant_info_py_none {L : CaseMap} (w : world) :
  exists e, get_relevant_info_py PyNone w = Raised e.
Proof. eexists. reflexivity. Qed.

(** C8: called with a string, the lookup as the interpreter runs it raises
    nothing and returns a string, the fallback or one of the documents; it
    leaves the dict, the session and the page as they were; the string is
    the same whatever the session and the page hold; and a second call
    with the same query, right after the first, returns the same string. *)
Theorem lookup_total_deterministic {L : CaseMap} (w : world) (q : string) :
  w_kb w = KB ->
  get_relevant_info_py (PyStr q) w = Returned (PyStr (get_relevant_info q), w) /\
  (get_relevant_info q = FALLBACK \/ In (get_relevant_info q) (map snd KB)) /\
  (forall w', w_kb w' = KB ->
     get_relevant_info_py (PyStr q) w' =
     Returned (PyStr (get_relevant_info q), w')) /\
  (first <- get_relevant_info_py (PyStr q) ;;
   second <- get_relevant_info_py (PyStr q) ;;
   py_ret (first, second)) w =
  Returned ((PyStr (get_relevant_info q), PyStr (get_relevant_info q)), w).
Proof.
  intros Hkb.
  split; [exact (get_relevant_info_py_returns q w Hkb)|].
  split; [apply scan_items_range|].
  split; [intros w' Hkb'; exact (get_relevant_info_py_returns q w' Hkb')|].
  unfold py_bind at 1. rewrite (get_relevant_info_py_returns q w Hkb).
  unfold py_bind. rewrite (get_relevant_info_py_returns q w Hkb).
  reflexivity.
Qed.

Lemma lookup_total_deterministic_witness :
  get_relevant_info_py (L := ascii_case) (PyStr "What is my IP address?")
    {| w_kb := KB
     ; w_session := {| messages := [user_message "hello"]
                     ; gemini_history := [user_turn "hello"] |}
     ; w_page := [ChatMarkdown "user" "hello"] |} =
  Returned
    (PyStr doc_ip_address,
     {| w_kb := KB
      ; w_session := {| messages := [user_message "hello"]
                      ; gemini_history := [user_turn "hello"] |}
      ; w_page := [ChatMarkdown "user" "hello"] |}).
Proof.
  exact (proj1 (lookup_total_deterministic (L := ascii_case)
           {| w_kb := KB
            ; w_session := {| messages := [user_message "hello"]
                            ; gemini_history := [user_turn "hello"] |}
            ; w_page := [ChatMarkdown "user" "hello"] |}
           "What is my IP address?" eq_refl)).
Defined.

(** The upper-cased form of an ASCII-only query has the same lower-cased
    form as the query. *)
Lemma lower_upper_ascii {L : CaseMap} (q : string) :
  is_ascii q = true -> str_lower (str_upper q) = str_lower q.
Proof.
  intros H.
  rewrite (str_upper_ascii q H).
  rewrite (str_lower_ascii _ (is_ascii_upper q H)), (str_lower_ascii q H).
  apply ascii_lower_upper.
Qed.

(** C9, the claim as worded fails at its example: the upper-cased form of
    a query need not have the lower-cased form of the query.  The long s
    upper-cases to "S", so the upper-cased form of the query below holds
    "slow network" once lower-cased and gets that guide, while the query
    itself gets the fallback.  The query is made of ASCII characters and
    the long s, where [long_s_case] is what Python computes. *)
Lemma upper_variant_counterexample :
  str_upper (CaseMap := long_s_case) "ſlow network" = "SLOW NETWORK" /\
  str_lower (CaseMap := long_s_case) "ſlow network" = "ſlow network" /\
  str_lower (CaseMap := long_s_case) "SLOW NETWORK" = "slow network" /\
  get_relevant_info (L := long_s_case) "ſlow network" = FALLBACK /\
  get_relevant_info (L := long_s_case)
    (str_upper (CaseMap := long_s_case) "ſlow network") = doc_slow_network /\
  FALLBACK <> doc_slow_network.
Proof.
  repeat split; try (vm_compute; reflexivity). differ.
Qed.

(** C9, amended: two queries with the same lower-cased form, whatever
    characters they are made of, get the same answer; the query is
    lower-cased before the scan and every key of the dict is its own
    lower-cased form.  The upper-cased form of an ASCII-only query is such
    a variant of it. *)
Theorem lookup_case_invariant {L : CaseMap} (q q' : string) :
  (str_lower q' = str_lower q ->
   get_relevant_info q' = get_relevant_info q) /\
  Forall (fun e => str_lower (fst e) = fst e) KB /\
  (is_ascii q = true ->
   str_lower (str_upper q) = str_lower q /\
   get_relevant_info (str_upper q) = get_relevant_info q).
Proof.
  split.
  - intros H. unfold get_relevant_info. cbv zeta. now rewrite H.
  - split; [exact kb_keys_lower|].
    intros Ha. pose proof (lower_upper_ascii q Ha) as H.
    split; [exact H|].
    unfold get_relevant_info. cbv zeta. now rewrite H.
Qed.

Lemma lookup_case_invariant_witness :
  str_lower (CaseMap := ascii_case) "MY WI-FI NOT WORKING" =
  str_lower (CaseMap := ascii_case) "My Wi-Fi not working" /\
  get_relevant_info (L := ascii_case) "MY WI-FI NOT WORKING" =
  get_relevant_info (L := ascii_case) "My Wi-Fi not working".
Proof.
  split; [vm_compute; reflexivity|].
  apply (proj1 (lookup_case_invariant (L := ascii_case)
                  "My Wi-Fi not working" "MY WI-FI NOT WORKING")).
  vm_compute. reflexivity.
Defined.

(** C10, the claim as worded fails: the query below holds "ip address"
    inside "voip address", and the lookup answers with the document of
    "no internet", which also occurs in it and comes first.  The query is
    ASCII-only, so it is evaluated with [ascii_case]; every case map agrees
    with it there ([lookup_ascii]). *)
Lemma raw_substring_counterexample :
  In ("ip address", doc_ip_address) KB /\
  triggered (L := ascii_case) "ip address" "No internet on my VoIP address" = true /\
  get_relevant_info (L := ascii_case) "No internet on my VoIP address" = doc_no_internet /\
  get_relevant_info (L := ascii_case) "No internet on my VoIP address" <> doc_ip_address.
Proof.
  split; [cbn; tauto|].
  split; [vm_compute; reflexivity|].
  assert (H : get_relevant_info (L := ascii_case) "No internet on my VoIP address" = doc_no_internet)
    by (vm_compute; reflexivity).
  split; [exact H|]. rewrite H. differ.
Qed.

(** The same for every case map: the query of the counterexample gets the
    "no internet" document. *)
Lemma voip_query_first_match {L : CaseMap} :
  triggered "ip address" "No internet on my VoIP address" = true /\
  get_relevant_info "No internet on my VoIP address" = doc_no_internet.
Proof.
  rewrite triggered_ascii, lookup_ascii by reflexivity.
  split; vm_compute; reflexivity.
Qed.

(** C10, amended: a trigger that occurs anywhere in the lower-cased query,
    whatever the characters around it, gets its document as long as no
    earlier trigger of the dict occurs in the query too; a query that holds
    "voip address" and none of the three earlier triggers gets the
    IP-address guide. *)
Theorem raw_substring_match {L : CaseMap} (q : string) :
  (forall i k d a b,
      nth_error KB i = Some (k, d) ->
      str_lower q = (a ++ k ++ b)%string ->
      miss_before KB (str_lower q) i ->
      get_relevant_info q = d)
  /\
  (str_in "voip address" (str_lower q) = true ->
   triggered "no internet" q = false ->
   triggered "slow network" q = false ->
   triggered "wi-fi not working" q = false ->
   triggered "ip address" q = true /\
   get_relevant_info q = doc_ip_address).
Proof.
  split.
  - intros i k d a b Hn Hq Hm.
    apply (lookup_first q i k d Hn); [|exact Hm].
    unfold triggered. rewrite Hq. apply str_in_intro.
  - intros Hv H0 H1 H2.
    assert (Hip : triggered "ip address" q = true).
    { unfold triggered.
      apply (str_in_trans "ip address" "voip address" _); [reflexivity | exact Hv]. }
    split; [exact Hip|].
    apply (lookup_first q 3 "ip address" doc_ip_address eq_refl Hip).
    intros j k d Hj Hn.
    destruct (kb_entries _ _ Hn) as [[-> E]|[[-> E]|[[-> E]|[-> E]]]];
      try lia; injection E as -> _; assumption.
Qed.

Lemma raw_substring_match_witness :
  str_in "voip address" (str_lower (CaseMap := ascii_case) "What is my VoIP address?") = true /\
  get_relevant_info (L := ascii_case) "What is my VoIP address?" = doc_ip_address.
Proof.
  split; [vm_compute; reflexivity|].
  apply (proj2 (raw_substring_match (L := ascii_case) "What is my VoIP address?"));
    vm_compute; reflexivity.
Defined.

(** ** The augmented prompt *)

Lemma compose_layout (instruction retrieved prompt : string) :
  compose instruction retrieved prompt =
  (instruction ++
   "Context:" ++ String LF "" ++ retrieved ++ String LF (String LF "") ++
   "User's request:" ++ String LF "" ++ prompt)%string.
Proof.
  unfold compose, context_block, request_block.
  f_equal. cbn [String.append]. do 9 f_equal.
  now rewrite append_assoc.
Qed.

Lemma augmented_prompt_compose (retrieved prompt : string) :
  augmented_prompt retrieved prompt = compose INSTRUCTION retrieved prompt.
Proof.
  rewrite compose_layout. unfold augmented_prompt. f_equal.
  cbn [String.append]. do 9 f_equal. now rewrite append_assoc.
Qed.

(** The retrieved text and the user's text both occur in the prompt. *)
Lemma augmented_prompt_holds (retrieved prompt : string) :
  str_in retrieved (augmented_prompt retrieved prompt) = true /\
  str_in prompt (augmented_prompt retrieved prompt) = true.
Proof.
  rewrite augmented_prompt_compose, compose_layout. split.
  - apply str_in_iff.
    exists (INSTRUCTION ++ "Context:" ++ String LF "")%string,
           (String LF (String LF "") ++ "User's request:" ++ String LF "" ++ prompt)%string.
    now rewrite !append_assoc.
  - apply str_in_iff.
    exists (INSTRUCTION ++ "Context:" ++ String LF "" ++ retrieved ++
            String LF (String LF "") ++ "User's request:" ++ String LF "")%string, "".
    rewrite !append_assoc. now rewrite append_nil_r.
Qed.

(** C7: the prompt is the instruction, then the block labelled "Context:"
    that holds the retrieved text and nothing else, then the block labelled
    "User's request:" that holds the user's text and nothing else; it is
    the specification's [compose] at the script's instruction, and
    [compose] has that layout for every instruction. *)
Theorem prompt_layout (retrieved prompt : string) :
  augmented_prompt retrieved prompt = compose INSTRUCTION retrieved prompt /\
  (forall instruction,
      compose instruction retrieved prompt =
      (instruction ++
       "Context:" ++ String LF "" ++ retrieved ++ String LF (String LF "") ++
       "User's request:" ++ String LF "" ++ prompt)%string) /\
  startswith INSTRUCTION (augmented_prompt retrieved prompt) = true /\
  str_in retrieved (augmented_prompt retrieved prompt) = true /\
  str_in prompt (augmented_prompt retrieved prompt) = true.
Proof.
  split; [apply augmented_prompt_compose|].
  split; [intros instruction; apply compose_layout|].
  split; [|apply augmented_prompt_holds].
  rewrite augmented_prompt_compose, compose_layout. apply startswith_app.
Qed.

(** C5, the claim as worded fails: the lower-cased input has no hyphen and
    has "is" before "not working", so "wi-fi not working" does not occur in
    it; the lookup gives the fallback and the Wi-Fi document is not in the
    prompt.  The input is ASCII-only, so it is evaluated with [ascii_case];
    every case map agrees with it there ([lookup_ascii]). *)
Lemma scenario_counterexample :
  triggered (L := ascii_case) "wi-fi not working" scenario_query = false /\
  get_relevant_info (L := ascii_case) scenario_query = FALLBACK /\
  str_in doc_wifi_not_working
    (augmented_prompt (get_relevant_info (L := ascii_case) scenario_query) scenario_query) = false.
Proof. repeat split; vm_compute; reflexivity. Qed.

(** C5, amended: for "My wifi is not working" no trigger occurs, the lookup
    gives the fallback notice, and the prompt holds that notice and the
    user's text as typed; "My Wi-Fi not working" does hit "wi-fi not
    working", and its prompt holds the Wi-Fi document and the user's text
    as typed. *)
Theorem scenario_end_to_end {L : CaseMap} :
  (forallb (fun e => negb (triggered (fst e) scenario_query)) KB = true /\
   get_relevant_info scenario_query = FALLBACK /\
   augmented_prompt (get_relevant_info scenario_query) scenario_query =
     compose INSTRUCTION FALLBACK scenario_query /\
   str_in FALLBACK
     (augmented_prompt (get_relevant_info scenario_query) scenario_query) = true /\
   str_in scenario_query
     (augmented_prompt (get_relevant_info scenario_query) scenario_query) = true)
  /\
  (triggered "wi-fi not working" hyphenated_query = true /\
   get_relevant_info hyphenated_query = doc_wifi_not_working /\
   augmented_prompt (get_relevant_info hyphenated_query) hyphenated_query =
     compose INSTRUCTION doc_wifi_not_working hyphenated_query /\
   str_in doc_wifi_not_working
     (augmented_prompt (get_relevant_info hyphenated_query) hyphenated_query) = true /\
   str_in hyphenated_query
     (augmented_prompt (get_relevant_info hyphenated_query) hyphenated_query) = true).
Proof.
  assert (H1 : get_relevant_info scenario_query = FALLBACK)
    by (rewrite lookup_ascii by reflexivity; vm_compute; reflexivity).
  assert (H2 : get_relevant_info hyphenated_query = doc_wifi_not_working)
    by (rewrite lookup_ascii by reflexivity; vm_compute; reflexivity).
  rewrite H1, H2.
  split.
  - split.
    { apply forallb_forall. intros e He.
      rewrite triggered_ascii by reflexivity.
      revert e He. apply forallb_forall. vm_compute. reflexivity. }
    split; [reflexivity|].
    split; [apply augmented_prompt_compose|].
    apply augmented_prompt_holds.
  - split; [rewrite triggered_ascii by reflexivity; vm_compute; reflexivity|].
    split; [reflexivity|].
    split; [apply augmented_prompt_compose|].
    apply augmented_prompt_holds.
Qed.

(** ** The streaming loop *)

Lemma concat_all_cons (f : string) (rest : list string) :
  concat_all (f :: rest) = (f ++ concat_all rest)%string.
Proof. reflexivity. Qed.

Lemma running_cons (f : string) (rest : list string) :
  running (f :: rest) = f :: map (String.append f) (running rest).
Proof.
  unfold running. cbn [length seq map firstn].
  f_equal.
  - cbn. apply append_nil_r.
  - rewrite <- seq_shift, !map_map. apply map_ext. intros k. reflexivity.
Qed.



(** The loop started with a buffer [acc]: the renders are the buffer, the
    running concatenation and the cursor; the result is the buffer and all
    the fragments. *)
Lemma stream_loop_stream_of (fragments : list string) :
  forall acc,
    stream_loop (stream_of fragments) acc =
    (map (fun b => (acc ++ b ++ CURSOR)%string) (running fragments),
     Returned (acc ++ concat_all fragments)%string).
Proof.
  induction fragments as [|f rest IH]; intros acc.
  - cbn. now rewrite append_nil_r.
  - cbn [stream_of stream_loop]. unfold str_add at 1. rewrite IH.
    rewrite running_cons, concat_all_cons. cbn [map].
    unfold str_add. rewrite map_map, !append_assoc.
    f_equal. f_equal. apply map_ext. intros b. now rewrite !append_assoc.
Qed.



(** A loop over a stream that ends in an exception ends in it, whatever
    was consumed before. *)
Lemma stream_loop_error (resp : response) (e : string) :
  stream_error resp = Some e ->
  forall acc, snd (stream_loop resp acc) = Raised e.
Proof.
  induction resp as [|text rest IH|e']; intros H acc; cbn in *.
  - discriminate.
  - specialize (IH H (str_add acc text)).
    destruct (stream_loop rest (str_add acc text)) as [renders res].
    exact IH.
  - now injection H as ->.
Qed.

Lemma stream_error_failing_after (fragments : list string) (e : string) :
  stream_error (failing_after fragments e) = Some e.
Proof. induction fragments as [|f rest IH]; [reflexivity | exact IH]. Qed.

(** The streams that raise are those that yield some fragments and then
    raise. *)
Lemma stream_error_inv (resp : response) (e : string) :
  stream_error resp = Some e ->
  exists fragments, resp = failing_after fragments e.
Proof.
  induction resp as [|text rest IH|e']; intros H; cbn in H.
  - discriminate.
  - destruct (IH H) as [fr ->]. now exists (text :: fr).
  - injection H as ->. now exists [].
Qed.

Lemma assistant_block_error (resp : response) (e : string) :
  stream_error resp = Some e ->
  exists shown, assistant_block resp = (shown, Raised e).
Proof.
  intros H. unfold assistant_block.
  pose proof (stream_loop_error resp e H "") as Hs.
  destruct (stream_loop resp "") as [renders res]. cbn in Hs. subst res.
  now exists (map Placeholder renders).
Qed.

Lemma submitted_nonempty (prompt : string) :
  prompt <> "" -> submitted (Some prompt) = Some prompt.
Proof. destruct prompt; [congruence | reflexivity]. Qed.

(** ** The session histories *)

(** C1: when the stream of the turn ends in an exception, at the call or
    after any number of fragments, the run leaves the histories as they
    were with the user's entry added to each and nothing else: no
    assistant entry, and the buffer built so far is dropped; the error is
    shown. *)
Theorem failure_does_not_commit {L : CaseMap}
    (send_message : remote) (st : session_state) (prompt e : string) :
  prompt <> "" ->
  stream_error
    (send_message (gemini_history st)
       (augmented_prompt (get_relevant_info prompt) prompt)) = Some e ->
  messages (fst (script_run send_message (Some prompt) st)) =
    messages st ++ [user_message prompt] /\
  gemini_history (fst (script_run send_message (Some prompt) st)) =
    gemini_history st ++ [user_turn prompt] /\
  In (StError ("An error occurred: " ++ e)%string)
     (snd (script_run send_message (Some prompt) st)).
Proof.
  intros Hne Herr.
  unfold script_run. rewrite (submitted_nonempty _ Hne).
  unfold handle_prompt.
  destruct (assistant_block_error _ _ Herr) as [shown Hblock].
  rewrite Hblock. cbn [fst snd messages gemini_history].
  repeat split.
  apply in_or_app. right. right.
  apply in_or_app. right. now left.
Qed.

Lemma failure_does_not_commit_witness :
  messages
    (fst (script_run (L := ascii_case) (fun _ _ => failing_after ["Par"; "tial"] "quota exceeded")
            (Some "no internet") initial_state)) =
    [user_message "no internet"] /\
  gemini_history
    (fst (script_run (L := ascii_case) (fun _ _ => failing_after ["Par"; "tial"] "quota exceeded")
            (Some "no internet") initial_state)) =
    [user_turn "no internet"].
Proof.
  destruct (failure_does_not_commit (L := ascii_case)
              (fun _ _ => failing_after ["Par"; "tial"] "quota exceeded")
              initial_state "no internet" "quota exceeded") as [Hm [Hg _]].
  - discriminate.
  - reflexivity.
  - split; [exact Hm | exact Hg].
Defined.

Lemma user_pair (prompt : string) :
  roles_correspond (user_message prompt) (user_turn prompt).
Proof. repeat split; intros H; try reflexivity; discriminate. Qed.

Lemma assistant_pair (full_response : string) :
  roles_correspond (assistant_message full_response) (model_turn full_response).
Proof. repeat split; intros H; try reflexivity; discriminate. Qed.

Create HintDb pairs.
#[local] Hint Resolve user_pair assistant_pair : pairs.

(** A run appends entries in pairs. *)
Lemma script_run_paired {L : CaseMap}
    (send_message : remote) (chat_input : option string) (st : session_state) :
  Forall2 roles_correspond (messages st) (gemini_history st) ->
  Forall2 roles_correspond
    (messages (fst (script_run send_message chat_input st)))
    (gemini_history (fst (script_run send_message chat_input st))).
Proof.
  intros H. unfold script_run.
  destruct (submitted chat_input) as [prompt|]; [|exact H].
  unfold handle_prompt.
  destruct (assistant_block _) as [shown [full_response|e]];
    cbn [fst messages gemini_history];
    repeat (apply Forall2_app; [|constructor; [auto with pairs | constructor]]);
    exact H.
Qed.

Lemma states_between_paired {L : CaseMap} (runs : list (remote * option string)) :
  forall st,
    Forall2 roles_correspond (messages st) (gemini_history st) ->
    forall st',
      In st' (states_between runs st) ->
      Forall2 roles_correspond (messages st') (gemini_history st').
Proof.
  induction runs as [|[send_message chat_input] rest IH]; intros st H st' Hin.
  - destruct Hin as [<-|[]]. exact H.
  - destruct Hin as [<-|Hin]; [exact H|].
    apply (IH _ (script_run_paired send_message chat_input st H) st' Hin).
Qed.

Lemma paired_nth {A B : Type} (R : A -> B -> Prop) (l : list A) (l' : list B) :
  Forall2 R l l' ->
  forall i a b, nth_error l i = Some a -> nth_error l' i = Some b -> R a b.
Proof.
  induction 1 as [|x y l l' Hxy _ IH]; intros i a b Ha Hb.
  - destruct i; discriminate.
  - destruct i as [|i]; cbn in Ha, Hb.
    + injection Ha as <-. injection Hb as <-. exact Hxy.
    + exact (IH i a b Ha Hb).
Qed.

(** C2: between the runs of any sequence of runs from the empty session
    (a run with no prompt, a turn whose stream completes, a turn whose
    stream raises), the display history and the protocol history have the
    same length, and at every index the roles go together: "user" with
    "user", "assistant" with "model". *)
Theorem histories_synchronized {L : CaseMap}
    (runs : list (remote * option string)) (st : session_state) :
  In st (states_between runs initial_state) ->
  synchronized st.
Proof.
  intros Hin.
  assert (H : Forall2 roles_correspond (messages st) (gemini_history st)).
  { apply (states_between_paired runs initial_state); [constructor | exact Hin]. }
  split.
  - exact (Forall2_length H).
  - exact (paired_nth _ _ _ H).
Qed.

Lemma histories_synchronized_witness :
  synchronized
    (fst (script_run (L := ascii_case) (fun _ _ => failing_after ["Par"; "tial"] "timeout")
            (Some "slow network")
            (fst (script_run (L := ascii_case) (fun _ _ => stream_of ["Check "; "your "; "router."])
                    (Some "My wifi is not working") initial_state)))).
Proof.
  apply (histories_synchronized (L := ascii_case)
           [ ((fun _ _ => stream_of ["Check "; "your "; "router."]),
              Some "My wifi is not working")
           ; ((fun _ _ => failing_after ["Par"; "tial"] "timeout"),
              Some "slow network") ]).
  cbn [states_between In]. right. right. left. reflexivity.
Defined.



Example streaming_example :
  assistant_block (stream_of ["Hel"; "lo, "; "world"]) =
  ([ Placeholder ("Hel" ++ CURSOR)
   ; Placeholder ("Hello, " ++ CURSOR)
   ; Placeholder ("Hello, world" ++ CURSOR)
   ; Placeholder "Hello, world" ],
   Returned "Hello, world").
Proof. reflexivity. Qed.

(** * Further properties of the script *)

(** ** The lookup *)

(** The scan either falls through, every entry missing, or stops at the
    first entry that hits. *)
Lemma scan_items_cases (items : list (string * string)) (query : string) :
  (scan_items items query = FALLBACK /\
   forall k d, In (k, d) items -> str_in k query = false)
  \/
  (exists i k d,
      nth_error items i = Some (k, d) /\
      str_in k query = true /\
      miss_before items query i /\
      scan_items items query = d).
Proof.
  induction items as [|[k0 d0] rest IH]; simpl.
  - left. split; [reflexivity|]. intros k d [].
  - destruct (str_in k0 query) eqn:Hk0.
    + right. exists 0, k0, d0. repeat split; try assumption.
      intros j k d Hj. lia.
    + destruct IH as [[Hf Hm]|[i [k [d [Hn [Hs [Hb Hr]]]]]]].
      * left. split; [exact Hf|].
        intros k d [E|Hin]; [injection E as <- <-; exact Hk0 | exact (Hm k d Hin)].
      * right. exists (S i), k, d. repeat split; try assumption.
        intros j k' d' Hj Hnj. destruct j as [|j]; simpl in Hnj.
        -- injection Hnj as <- <-. exact Hk0.
        -- apply (Hb j k' d'); [lia | exact Hnj].
Qed.

Lemma kb_nth_in (i : nat) (k d : string) :
  nth_error KB i = Some (k, d) -> In (k, d) KB.
Proof. apply nth_error_In. Qed.

Lemma lookup_fallback_inv {L : CaseMap} (q : string) :
  get_relevant_info q = FALLBACK ->
  forall k d, In (k, d) KB -> triggered k q = false.
Proof.
  intros Hf.
  destruct (scan_items_cases KB (str_lower q)) as [[_ Hm]|[i [k [d [Hn [_ [_ Hr]]]]]]].
  - exact Hm.
  - exfalso. apply (kb_docs_not_fallback k d (kb_nth_in _ _ _ Hn)).
    rewrite <- Hr. symmetry. exact Hf.
Qed.

(** X1: the lookup answers with the fallback exactly when no trigger of the
    dict occurs in the lower-cased query. *)
Theorem fallback_iff_no_trigger {L : CaseMap} (q : string) :
  get_relevant_info q = FALLBACK <->
  (forall k d, In (k, d) KB -> triggered k q = false).
Proof.
  split.
  - apply lookup_fallback_inv.
  - apply lookup_miss.
Qed.

(** X2: the lookup answers with the document of an entry exactly when that
    entry's trigger occurs in the lower-cased query and no earlier entry's
    trigger does. *)
Theorem answer_iff_first_hit {L : CaseMap} (q : string) (i : nat) (k d : string) :
  nth_error KB i = Some (k, d) ->
  (get_relevant_info q = d <->
   triggered k q = true /\ miss_before KB (str_lower q) i).
Proof.
  intros Hn. split.
  - intros Hres.
    destruct (scan_items_cases KB (str_lower q))
      as [[Hf _]|[i0 [k0 [d0 [Hn0 [Hs [Hb Hr]]]]]]].
    + exfalso. apply (kb_docs_not_fallback k d (kb_nth_in _ _ _ Hn)).
      rewrite <- Hf. exact Hres.
    + assert (Hi : i0 = i).
      { destruct (Nat.eq_dec i0 i) as [E|E]; [exact E|].
        exfalso. apply (kb_docs_distinct i0 i (k0, d0) (k, d) Hn0 Hn E).
        cbn [snd]. rewrite <- Hr. exact Hres. }
      subst i0. rewrite Hn in Hn0. injection Hn0 as <- <-.
      split; assumption.
  - intros [Hs Hb]. exact (lookup_first q i k d Hn Hs Hb).
Qed.

Lemma answer_iff_first_hit_witness :
  get_relevant_info (L := ascii_case) "Slow network and wi-fi not working" = doc_slow_network <->
  triggered (L := ascii_case) "slow network" "Slow network and wi-fi not working" = true /\
  miss_before KB (str_lower (CaseMap := ascii_case) "Slow network and wi-fi not working") 1.
Proof.
  apply (answer_iff_first_hit (L := ascii_case) "Slow network and wi-fi not working" 1
           "slow network" doc_slow_network).
  reflexivity.
Defined.

(** X4: a query that is a trigger itself, in any letter case, gets that
    trigger's document: no trigger of the dict occurs inside another. *)
Theorem trigger_round_trip {L : CaseMap} (k d q : string) :
  In (k, d) KB ->
  str_lower q = k ->
  get_relevant_info q = d.
Proof.
  intros Hin Hq. unfold get_relevant_info. cbv zeta. rewrite Hq.
  cbn [In NETWORK_TROUBLESHOOTING_KB] in Hin.
  repeat (destruct Hin as [Hin|Hin];
          [injection Hin as <- <-; vm_compute; reflexivity|]).
  contradiction.
Qed.

Lemma trigger_round_trip_witness :
  get_relevant_info (L := ascii_case) "IP Address" = doc_ip_address.
Proof.
  apply (trigger_round_trip (L := ascii_case) "ip address" doc_ip_address "IP Address").
  - cbn. tauto.
  - reflexivity.
Defined.

(** ** The prompt of a turn *)

Lemma append_inj_l (a x y : string) :
  (a ++ x)%string = (a ++ y)%string -> x = y.
Proof.
  induction a as [|c a IH]; simpl; intros H; [exact H|].
  injection H as H. exact (IH H).
Qed.

Lemma diverge_append (a : string) :
  forall b x y, diverge a b = true -> (a ++ x)%string <> (b ++ y)%string.
Proof.
  induction a as [|c a IH]; intros b x y Hd; [discriminate|].
  destruct b as [|c' b]; [discriminate|].
  cbn [diverge] in Hd. cbn [String.append]. intros H. injection H as Hc Hrest.
  subst c'. rewrite Ascii.eqb_refl in Hd. exact (IH b x y Hd Hrest).
Qed.

(** Two different answers of the lookup differ before either ends. *)
Lemma answers_separate (r1 r2 : string) :
  In r1 ANSWERS -> In r2 ANSWERS -> r1 = r2 \/ diverge r1 r2 = true.
Proof.
  assert (Hall : forallb (fun a => forallb (fun b => String.eqb a b || diverge a b)
                                     ANSWERS) ANSWERS = true)
    by (vm_compute; reflexivity).
  intros H1 H2. rewrite forallb_forall in Hall.
  specialize (Hall r1 H1). rewrite forallb_forall in Hall.
  specialize (Hall r2 H2). apply orb_true_iff in Hall.
  destruct Hall as [E|D]; [left; now apply String.eqb_eq | right; exact D].
Qed.

Lemma lookup_in_answers {L : CaseMap} (q : string) : In (get_relevant_info q) ANSWERS.
Proof.
  destruct (scan_items_range KB (str_lower q)) as [E|Hin].
  - left. symmetry. exact E.
  - right. exact Hin.
Qed.

Lemma augmented_prompt_split (retrieved prompt : string) :
  augmented_prompt retrieved prompt =
  ((INSTRUCTION ++ "Context:" ++ String LF "") ++
   retrieved ++ REQUEST_LABEL ++ prompt)%string.
Proof.
  rewrite augmented_prompt_compose, compose_layout.
  unfold REQUEST_LABEL. now rewrite !append_assoc.
Qed.

(** X6: the prompt sent for a turn determines the user's text: two
    submitted texts with the same augmented prompt are the same text. *)
Theorem turn_prompt_injective {L : CaseMap} (p1 p2 : string) :
  augmented_prompt (get_relevant_info p1) p1 =
  augmented_prompt (get_relevant_info p2) p2 ->
  p1 = p2.
Proof.
  rewrite !augmented_prompt_split. intros H.
  apply append_inj_l in H.
  destruct (answers_separate _ _ (lookup_in_answers p1) (lookup_in_answers p2))
    as [E|D].
  - rewrite E in H. apply append_inj_l in H. now apply append_inj_l in H.
  - exfalso. exact (diverge_append _ _ _ _ D H).
Qed.

Lemma turn_prompt_injective_witness :
  "what is my ip address" = "what is my ip address".
Proof.
  apply (turn_prompt_injective (L := ascii_case) "what is my ip address" "what is my ip address").
  reflexivity.
Defined.

(** X7: the f-string alone does not mark where the retrieved text ends: a
    user's text that holds the request label reads the same as a longer
    retrieved text followed by a shorter request. *)
Theorem request_label_not_escaped (retrieved prompt tail : string) :
  augmented_prompt retrieved (prompt ++ REQUEST_LABEL ++ tail) =
  augmented_prompt (retrieved ++ REQUEST_LABEL ++ prompt) tail.
Proof.
  rewrite !augmented_prompt_split. now rewrite !append_assoc.
Qed.

(** ** The display of a turn *)

Lemma stream_loop_failing_after (fragments : list string) (e : string) :
  forall acc,
    stream_loop (failing_after fragments e) acc =
    (map (fun b => (acc ++ b ++ CURSOR)%string) (running fragments), Raised e).
Proof.
  induction fragments as [|f rest IH]; intros acc.
  - reflexivity.
  - cbn [failing_after stream_loop]. unfold str_add at 1. rewrite IH.
    rewrite running_cons. cbn [map].
    unfold str_add. rewrite map_map, !append_assoc.
    f_equal. f_equal. apply map_ext. intros b. now rewrite !append_assoc.
Qed.

Lemma assistant_block_failing_after (fragments : list string) (e : string) :
  assistant_block (failing_after fragments e) =
  (map (fun b => Placeholder (b ++ CURSOR)) (running fragments), Raised e).
Proof.
  unfold assistant_block. rewrite stream_loop_failing_after.
  cbn [String.append]. now rewrite map_map.
Qed.

Lemma assistant_block_stream_of (fragments : list string) :
  assistant_block (stream_of fragments) =
  (map (fun b => Placeholder (b ++ CURSOR)) (running fragments)
     ++ [Placeholder (concat_all fragments)],
   Returned (concat_all fragments)).
Proof.
  unfold assistant_block. rewrite stream_loop_stream_of.
  cbn [String.append]. now rewrite map_map.
Qed.

(** X8: a turn whose stream raises after some fragments shows the stored
    messages, the user's text, one render per consumed fragment, each the
    text so far with the cursor, and then the error and the warning; no
    render without the cursor follows, so the placeholder keeps the partial
    text with its cursor. *)
Theorem failed_turn_display {L : CaseMap}
    (send_message : remote) (st : session_state)
    (prompt e : string) (fragments : list string) :
  prompt <> "" ->
  send_message (gemini_history st)
    (augmented_prompt (get_relevant_info prompt) prompt) =
    failing_after fragments e ->
  snd (script_run send_message (Some prompt) st) =
    replay st ++
    ChatMarkdown "user" prompt ::
    map (fun b => Placeholder (b ++ CURSOR)) (running fragments) ++
    [ StError ("An error occurred: " ++ e)%string
    ; StWarning "Please try again or rephrase your question." ].
Proof.
  intros Hne Hsend.
  unfold script_run. rewrite (submitted_nonempty _ Hne).
  unfold handle_prompt. rewrite Hsend, assistant_block_failing_after.
  reflexivity.
Qed.

Lemma failed_turn_display_witness :
  snd (script_run (L := ascii_case) (fun _ _ => failing_after ["Par"; "tial"] "quota exceeded")
         (Some "no internet") initial_state) =
  [ ChatMarkdown "user" "no internet"
  ; Placeholder ("Par" ++ CURSOR)
  ; Placeholder ("Partial" ++ CURSOR)
  ; StError "An error occurred: quota exceeded"
  ; StWarning "Please try again or rephrase your question." ].
Proof.
  apply (failed_turn_display (L := ascii_case)
           (fun _ _ => failing_after ["Par"; "tial"] "quota exceeded")
           initial_state "no internet" "quota exceeded" ["Par"; "tial"]).
  - discriminate.
  - reflexivity.
Defined.

Lemma completed_turn_state {L : CaseMap}
    (send_message : remote) (st : session_state)
    (prompt : string) (fragments : list string) :
  prompt <> "" ->
  send_message (gemini_history st)
    (augmented_prompt (get_relevant_info prompt) prompt) =
    stream_of fragments ->
  fst (script_run send_message (Some prompt) st) =
    {| messages := messages st ++
         [user_message prompt; assistant_message (concat_all fragments)]
     ; gemini_history := gemini_history st ++
         [user_turn prompt; model_turn (concat_all fragments)] |}.
Proof.
  intros Hne Hsend.
  unfold script_run. rewrite (submitted_nonempty _ Hne).
  unfold handle_prompt. rewrite Hsend, assistant_block_stream_of.
  cbn [fst messages gemini_history]. now rewrite <- !app_assoc.
Qed.

Lemma failed_turn_state {L : CaseMap}
    (send_message : remote) (st : session_state) (prompt e : string) :
  prompt <> "" ->
  stream_error
    (send_message (gemini_history st)
       (augmented_prompt (get_relevant_info prompt) prompt)) = Some e ->
  fst (script_run send_message (Some prompt) st) =
    {| messages := messages st ++ [user_message prompt]
     ; gemini_history := gemini_history st ++ [user_turn prompt] |}.
Proof.
  intros Hne Herr.
  unfold script_run. rewrite (submitted_nonempty _ Hne).
  unfold handle_prompt.
  destruct (assistant_block_error _ _ Herr) as [shown Hblock].
  rewrite Hblock. reflexivity.
Qed.

(** X9: what a completed turn stores depends on the text of the reply and
    not on how the stream cut it into fragments. *)
Theorem stored_reply_ignores_chunking {L : CaseMap}
    (send1 send2 : remote) (st : session_state)
    (prompt : string) (fragments1 fragments2 : list string) :
  prompt <> "" ->
  send1 (gemini_history st)
    (augmented_prompt (get_relevant_info prompt) prompt) = stream_of fragments1 ->
  send2 (gemini_history st)
    (augmented_prompt (get_relevant_info prompt) prompt) = stream_of fragments2 ->
  concat_all fragments1 = concat_all fragments2 ->
  fst (script_run send1 (Some prompt) st) =
  fst (script_run send2 (Some prompt) st).
Proof.
  intros Hne H1 H2 Hc.
  rewrite (completed_turn_state send1 st prompt fragments1 Hne H1).
  rewrite (completed_turn_state send2 st prompt fragments2 Hne H2).
  now rewrite Hc.
Qed.

Lemma stored_reply_ignores_chunking_witness :
  fst (script_run (L := ascii_case) (fun _ _ => stream_of ["Check "; "your "; "router."])
         (Some "slow network") initial_state) =
  fst (script_run (L := ascii_case) (fun _ _ => stream_of ["Check your"; ""; " router."])
         (Some "slow network") initial_state).
Proof.
  apply (stored_reply_ignores_chunking (L := ascii_case)
           (fun _ _ => stream_of ["Check "; "your "; "router."])
           (fun _ _ => stream_of ["Check your"; ""; " router."])
           initial_state "slow network"
           ["Check "; "your "; "router."] ["Check your"; ""; " router."]).
  - discriminate.
  - reflexivity.
  - reflexivity.
  - reflexivity.
Defined.

(** ** The histories over runs *)

Lemma submitted_inv (chat_input : option string) (prompt : string) :
  submitted chat_input = Some prompt ->
  chat_input = Some prompt /\ prompt <> "".
Proof.
  destruct chat_input as [[|c p]|]; cbn; intros H; try discriminate.
  injection H as <-. split; [reflexivity | discriminate].
Qed.

(** A run leaves the session as it was or appends the block of one turn to
    the display history and the same entries, translated, to the protocol
    history. *)
Lemma script_run_step {L : CaseMap}
    (send_message : remote) (chat_input : option string) (st : session_state) :
  (submitted chat_input = None /\
   fst (script_run send_message chat_input st) = st)
  \/
  (exists b,
      submitted chat_input = Some (block_prompt b) /\
      messages (fst (script_run send_message chat_input st)) =
        messages st ++ block_messages b /\
      gemini_history (fst (script_run send_message chat_input st)) =
        gemini_history st ++ map to_turn (block_messages b)).
Proof.
  unfold script_run.
  destruct (submitted chat_input) as [prompt|]; [right | left; now split].
  unfold handle_prompt.
  destruct (assistant_block _) as [shown [full_response|e]].
  - exists (Answered prompt full_response).
    cbn [fst messages gemini_history block_prompt block_messages map].
    repeat split; now rewrite <- app_assoc.
  - exists (Unanswered prompt). now repeat split.
Qed.

(** What every run keeps holds between the runs of any sequence. *)
Lemma states_between_invariant {L : CaseMap} (P : session_state -> Prop) :
  (forall send_message chat_input st,
      P st -> P (fst (script_run send_message chat_input st))) ->
  forall runs st0,
    P st0 -> forall st, In st (states_between runs st0) -> P st.
Proof.
  intros Hstep runs.
  induction runs as [|[send_message chat_input] rest IH]; intros st0 H0 st Hin.
  - destruct Hin as [<-|[]]. exact H0.
  - destruct Hin as [<-|Hin]; [exact H0|].
    exact (IH _ (Hstep send_message chat_input st0 H0) st Hin).
Qed.

(** X10: between the runs of any sequence of runs from the empty session,
    the protocol history is the display history entry by entry: the same
    text as the single part, with "assistant" written "model". *)
Theorem protocol_history_is_translation {L : CaseMap}
    (runs : list (remote * option string)) (st : session_state) :
  In st (states_between runs initial_state) ->
  gemini_history st = map to_turn (messages st).
Proof.
  apply (states_between_invariant
           (fun st => gemini_history st = map to_turn (messages st)));
    [|reflexivity].
  intros send_message chat_input st0 H0.
  destruct (script_run_step send_message chat_input st0)
    as [[_ ->]|[b [_ [Hm Hg]]]]; [exact H0|].
  now rewrite Hm, Hg, map_app, H0.
Qed.

Lemma protocol_history_is_translation_witness :
  gemini_history
    (fst (script_run (L := ascii_case) (fun _ _ => stream_of ["Check "; "your "; "router."])
            (Some "My wifi is not working") initial_state)) =
  map to_turn
    (messages
       (fst (script_run (L := ascii_case) (fun _ _ => stream_of ["Check "; "your "; "router."])
               (Some "My wifi is not working") initial_state))).
Proof.
  apply (protocol_history_is_translation (L := ascii_case)
           [ ((fun _ _ => stream_of ["Check "; "your "; "router."]),
              Some "My wifi is not working") ]).
  cbn [states_between In]. right. left. reflexivity.
Defined.

(** In a sequence of turns an entry of the assistant has an entry of the
    user right before it. *)
Lemma blocks_assistant_follows_user (blocks : list turn_block) :
  forall i m,
    nth_error (flat_map block_messages blocks) i = Some m ->
    msg_role m = "assistant" ->
    exists j u,
      i = S j /\
      nth_error (flat_map block_messages blocks) j = Some u /\
      msg_role u = "user".
Proof.
  induction blocks as [|b rest IH]; intros i m Hn Hrole.
  - destruct i; discriminate.
  - destruct b as [p|p r]; cbn [flat_map block_messages app] in *.
    + destruct i as [|i]; cbn [nth_error] in Hn.
      * injection Hn as <-. discriminate.
      * destruct (IH i m Hn Hrole) as [j [u [-> [Hj Hu]]]].
        exists (S j), u. now repeat split.
    + destruct i as [|[|i]]; cbn [nth_error] in Hn.
      * injection Hn as <-. discriminate.
      * exists 0, (user_message p). now repeat split.
      * destruct (IH i m Hn Hrole) as [j [u [-> [Hj Hu]]]].
        exists (S (S j)), u. now repeat split.
Qed.

(** X11: between the runs of any sequence of runs from the empty session,
    the display history is a sequence of turns, each a user entry with a
    non-empty text followed by at most one assistant entry; so an entry of
    the assistant never comes first and always has an entry of the user
    right before it. *)
Theorem history_is_sequence_of_turns {L : CaseMap}
    (runs : list (remote * option string)) (st : session_state) :
  In st (states_between runs initial_state) ->
  (exists blocks,
      Forall (fun b => block_prompt b <> "") blocks /\
      messages st = flat_map block_messages blocks) /\
  (forall i m,
      nth_error (messages st) i = Some m ->
      msg_role m = "assistant" ->
      exists j u,
        i = S j /\ nth_error (messages st) j = Some u /\ msg_role u = "user").
Proof.
  intros Hin.
  assert (Hblocks : exists blocks,
             Forall (fun b => block_prompt b <> "") blocks /\
             messages st = flat_map block_messages blocks).
  { revert st Hin.
    apply (states_between_invariant
             (fun st => exists blocks,
                  Forall (fun b => block_prompt b <> "") blocks /\
                  messages st = flat_map block_messages blocks)).
    - intros send_message chat_input st0 [blocks [Hne Hm]].
      destruct (script_run_step send_message chat_input st0)
        as [[_ ->]|[b [Hsub [Hm' _]]]].
      + now exists blocks.
      + exists (blocks ++ [b]). split.
        * apply Forall_app. split; [exact Hne|].
          constructor; [|constructor].
          exact (proj2 (submitted_inv _ _ Hsub)).
        * rewrite Hm', Hm, flat_map_app. cbn [flat_map]. now rewrite app_nil_r.
    - exists []. split; [constructor | reflexivity]. }
  split; [exact Hblocks|].
  destruct Hblocks as [blocks [_ Hm]]. rewrite Hm.
  apply blocks_assistant_follows_user.
Qed.

Lemma history_is_sequence_of_turns_witness :
  exists blocks,
    Forall (fun b => block_prompt b <> "") blocks /\
    messages
      (fst (script_run (L := ascii_case) (fun _ _ => failing_after ["Par"; "tial"] "timeout")
              (Some "slow network") initial_state)) =
    flat_map block_messages blocks.
Proof.
  apply (history_is_sequence_of_turns (L := ascii_case)
           [ ((fun _ _ => failing_after ["Par"; "tial"] "timeout"),
              Some "slow network") ]).
  cbn [states_between In]. right. left. reflexivity.
Defined.

(** X12: the histories only grow at the end: whatever session a sequence of
    runs starts from, its two histories are kept, in place and unchanged,
    at the front of the histories of every later state, and what is added
    to the protocol history is what is added to the display history,
    translated. *)
Theorem histories_append_only {L : CaseMap}
    (runs : list (remote * option string)) (st0 st : session_state) :
  In st (states_between runs st0) ->
  exists added,
    messages st = messages st0 ++ added /\
    gemini_history st = gemini_history st0 ++ map to_turn added.
Proof.
  revert st0.
  induction runs as [|[send_message chat_input] rest IH]; intros st0 Hin.
  - destruct Hin as [<-|[]]. exists []. now rewrite !app_nil_r.
  - destruct Hin as [<-|Hin]; [exists []; now rewrite !app_nil_r|].
    destruct (IH _ Hin) as [added [Hm Hg]].
    destruct (script_run_step send_message chat_input st0)
      as [[_ E]|[b [_ [Hm' Hg']]]].
    + rewrite E in Hm, Hg. now exists added.
    + exists (block_messages b ++ added).
      rewrite Hm, Hg, Hm', Hg', map_app, <- !app_assoc. now split.
Qed.

Lemma histories_append_only_witness :
  exists added,
    messages
      (fst (script_run (L := ascii_case) (fun _ _ => stream_of ["ok"]) (Some "ip address")
              {| messages := [user_message "hello"]
               ; gemini_history := [user_turn "hello"] |})) =
      [user_message "hello"] ++ added /\
    gemini_history
      (fst (script_run (L := ascii_case) (fun _ _ => stream_of ["ok"]) (Some "ip address")
              {| messages := [user_message "hello"]
               ; gemini_history := [user_turn "hello"] |})) =
      [user_turn "hello"] ++ map to_turn added.
Proof.
  apply (histories_append_only (L := ascii_case)
           [ ((fun _ _ => stream_of ["ok"]), Some "ip address") ]
           {| messages := [user_message "hello"]
            ; gemini_history := [user_turn "hello"] |}).
  cbn [states_between In]. right. left. reflexivity.
Defined.

(** X13: what a completed turn stores is what the next run shows: a run
    with no prompt after it replays the earlier messages and then the
    user's text and the whole reply, under their roles. *)
Theorem completed_turn_is_replayed {L : CaseMap}
    (send_message later : remote) (st : session_state)
    (prompt : string) (fragments : list string) :
  prompt <> "" ->
  send_message (gemini_history st)
    (augmented_prompt (get_relevant_info prompt) prompt) =
    stream_of fragments ->
  script_run later None (fst (script_run send_message (Some prompt) st)) =
    (fst (script_run send_message (Some prompt) st),
     replay st ++
     [ ChatMarkdown "user" prompt
     ; ChatMarkdown "assistant" (concat_all fragments) ]).
Proof.
  intros Hne Hsend.
  rewrite (completed_turn_state send_message st prompt fragments Hne Hsend).
  unfold script_run, replay. cbn [submitted messages].
  now rewrite map_app.
Qed.

Lemma completed_turn_is_replayed_witness :
  snd (script_run (L := ascii_case) (fun _ _ => Exhausted) None
         (fst (script_run (L := ascii_case) (fun _ _ => stream_of ["Check "; "your "; "router."])
                 (Some "My wifi is not working") initial_state))) =
  [ ChatMarkdown "user" "My wifi is not working"
  ; ChatMarkdown "assistant" "Check your router." ].
Proof.
  rewrite (completed_turn_is_replayed (L := ascii_case)
             (fun _ _ => stream_of ["Check "; "your "; "router."])
             (fun _ _ => Exhausted) initial_state
             "My wifi is not working" ["Check "; "your "; "router."]).
  - reflexivity.
  - discriminate.
  - reflexivity.
Defined.

(** X14: after a turn whose stream raised, the next turn starts its chat
    from a history that ends with the unanswered user turn; when its
    stream completes, the histories hold the two user entries one after
    the other and then the reply. *)
Theorem retry_after_failure {L : CaseMap}
    (send1 send2 : remote) (st : session_state)
    (prompt1 prompt2 e : string) (fragments : list string) :
  prompt1 <> "" ->
  prompt2 <> "" ->
  stream_error
    (send1 (gemini_history st)
       (augmented_prompt (get_relevant_info prompt1) prompt1)) = Some e ->
  send2 (gemini_history st ++ [user_turn prompt1])
    (augmented_prompt (get_relevant_info prompt2) prompt2) =
    stream_of fragments ->
  messages
    (fst (script_run send2 (Some prompt2)
            (fst (script_run send1 (Some prompt1) st)))) =
    messages st ++
    [ user_message prompt1; user_message prompt2
    ; assistant_message (concat_all fragments) ] /\
  gemini_history
    (fst (script_run send2 (Some prompt2)
            (fst (script_run send1 (Some prompt1) st)))) =
    gemini_history st ++
    [ user_turn prompt1; user_turn prompt2
    ; model_turn (concat_all fragments) ].
Proof.
  intros Hne1 Hne2 Herr Hsend.
  rewrite (failed_turn_state send1 st prompt1 e Hne1 Herr).
  rewrite (completed_turn_state send2
             {| messages := messages st ++ [user_message prompt1]
              ; gemini_history := gemini_history st ++ [user_turn prompt1] |}
             prompt2 fragments Hne2 Hsend).
  cbn [messages gemini_history]. now rewrite <- !app_assoc.
Qed.

Lemma retry_after_failure_witness :
  messages
    (fst (script_run (L := ascii_case) (fun _ _ => stream_of ["Check "; "your "; "router."])
            (Some "no internet again")
            (fst (script_run (L := ascii_case) (fun _ _ => failing_after ["Par"] "timeout")
                    (Some "no internet") initial_state)))) =
  [ user_message "no internet"; user_message "no internet again"
  ; assistant_message "Check your router." ].
Proof.
  apply (retry_after_failure (L := ascii_case)
           (fun _ _ => failing_after ["Par"] "timeout")
           (fun _ _ => stream_of ["Check "; "your "; "router."])
           initial_state "no internet" "no internet again" "timeout"
           ["Check "; "your "; "router."]).
  - discriminate.
  - discriminate.
  - reflexivity.
  - reflexivity.
Defined.

Lemma stored_entries_origin {L : CaseMap} (runs : list (remote * option string)) :
  forall st0 st,
    In st (states_between runs st0) ->
    forall m,
      In m (messages st) ->
      In m (messages st0) \/
      msg_role m = "assistant" \/
      (msg_content m <> "" /\
       exists send_message, In (send_message, Some (msg_content m)) runs).
Proof.
  induction runs as [|[send_message chat_input] rest IH]; intros st0 st Hin m Hm.
  - destruct Hin as [<-|[]]. now left.
  - destruct Hin as [<-|Hin]; [now left|].
    destruct (IH _ _ Hin m Hm) as [H0|[Ha|[Hne [send' Hs]]]].
    + destruct (script_run_step send_message chat_input st0)
        as [[_ E]|[b [Hsub [Hm' _]]]].
      * rewrite E in H0. now left.
      * rewrite Hm' in H0. apply in_app_or in H0.
        destruct H0 as [H0|H0]; [now left|].
        destruct (submitted_inv _ _ Hsub) as [-> Hnonempty].
        destruct b as [p|p r]; cbn in H0.
        -- destruct H0 as [<-|[]]. right. right.
           split; [exact Hnonempty|]. exists send_message. now left.
        -- destruct H0 as [<-|[<-|[]]].
           ++ right. right. split; [exact Hnonempty|].
              exists send_message. now left.
           ++ right. now left.
    + right. now left.
    + right. right. split; [exact Hne|]. exists send'. now right.
Qed.

(** X15: every user entry stored between the runs of a sequence of runs
    from the empty session is the non-empty text of a prompt submitted to
    one of these runs, as typed: the augmented prompt is never stored. *)
Theorem user_entries_are_submitted_prompts {L : CaseMap}
    (runs : list (remote * option string)) (st : session_state)
    (m : ChatMessage) :
  In st (states_between runs initial_state) ->
  In m (messages st) ->
  msg_role m = "user" ->
  msg_content m <> "" /\
  exists send_message, In (send_message, Some (msg_content m)) runs.
Proof.
  intros Hin Hm Hrole.
  destruct (stored_entries_origin runs _ _ Hin m Hm) as [[]|[Ha|H]].
  - rewrite Hrole in Ha. discriminate.
  - exact H.
Qed.

Lemma user_entries_are_submitted_prompts_witness :
  msg_content (user_message "slow network") <> "" /\
  exists send_message,
    In (send_message, Some (msg_content (user_message "slow network")))
       [ ((fun _ _ => stream_of ["Check "; "your "; "router."]) : remote,
          Some "slow network") ].
Proof.
  apply (user_entries_are_submitted_prompts (L := ascii_case)
           [ ((fun _ _ => stream_of ["Check "; "your "; "router."]) : remote,
              Some "slow network") ]
           (fst (script_run (L := ascii_case) (fun _ _ => stream_of ["Check "; "your "; "router."])
                   (Some "slow network") initial_state))
           (user_message "slow network")).
  - cbn [states_between In]. right. left. reflexivity.
  - left. reflexivity.
  - reflexivity.
Defined.

Lemma block_messages_length (b : turn_block) :
  1 <= length (block_messages b) <= 2.
Proof. destruct b; cbn; lia. Qed.

(** X16: a run removes nothing and adds at most two entries: between the
    runs of a sequence of [n] runs, the display history has at least the
    entries it started with and at most [2 * n] more. *)
Theorem history_length_bound {L : CaseMap}
    (runs : list (remote * option string)) (st0 st : session_state) :
  In st (states_between runs st0) ->
  length (messages st0) <= length (messages st) <=
  length (messages st0) + 2 * length runs.
Proof.
  revert st0.
  induction runs as [|[send_message chat_input] rest IH]; intros st0 Hin.
  - destruct Hin as [<-|[]]. cbn. lia.
  - destruct Hin as [<-|Hin]; [cbn [length]; lia|].
    specialize (IH _ Hin).
    destruct (script_run_step send_message chat_input st0)
      as [[_ E]|[b [_ [Hm' _]]]].
    + rewrite E in IH. cbn [length]. lia.
    + rewrite Hm', length_app in IH.
      pose proof (block_messages_length b). cbn [length]. lia.
Qed.

Lemma history_length_bound_witness :
  0 <=
  length (messages
            (fst (script_run (L := ascii_case) (fun _ _ => stream_of ["ok"]) (Some "ip address")
                    initial_state))) <= 0 + 2 * 1.
Proof.
  apply (history_length_bound (L := ascii_case)
           [ ((fun _ _ => stream_of ["ok"]), Some "ip address") ]
           initial_state).
  cbn [states_between In]. right. left. reflexivity.
Defined.
